(** * rust-trait-in-cpp: the [Add] trait, its implementations and the driver

    A shallow embedding of [Add.h], [Point.h] and [main.cpp].

    - Template specialisation is type-class resolution: an [AddTrait Self Rhs
      Out] instance is an implementation of [Add<Self, Rhs, Out>::add].
    - A computation that the language leaves undefined (signed overflow in a
      built-in addition) yields [None]; every [add] therefore returns an
      [option].
    - Built-in arithmetic follows the x86-64 System V data model: 32-bit
      [int], 64-bit [long], IEEE 754 binary32 [float] evaluated in its own
      format and rounded to nearest, ties to even.
    - [std::cout] is the text written so far. *)

From Stdlib Require Import ZArith List String Ascii Bool Lia SpecFloat.
Import ListNotations.

Local Open Scope Z_scope.

(** ** Built-in arithmetic types *)

Module Builtin.

(** The types that satisfy [std::integral]. *)
Inductive integral : Set :=
| bool_t | char_t | signed_char | unsigned_char
| char8_t | char16_t | char32_t | wchar_t
| short | unsigned_short | int | unsigned_int
| long | unsigned_long | long_long | unsigned_long_long.

(** The types that satisfy [std::floating_point]. *)
Inductive floating_point : Set := float_t | double_t | long_double_t.

Inductive numeric : Set :=
| Integral (i : integral)
| Floating (f : floating_point).

Definition width (i : integral) : Z :=
  match i with
  | bool_t | char_t | signed_char | unsigned_char | char8_t => 8
  | char16_t | short | unsigned_short => 16
  | char32_t | wchar_t | int | unsigned_int => 32
  | long | unsigned_long | long_long | unsigned_long_long => 64
  end.

Definition is_signed (i : integral) : bool :=
  match i with
  | char_t | signed_char | wchar_t | short | int | long | long_long => true
  | _ => false
  end.

Definition min_value (i : integral) : Z :=
  if is_signed i then - 2 ^ (width i - 1) else 0.

Definition max_value (i : integral) : Z :=
  match i with
  | bool_t => 1
  | _ => if is_signed i then 2 ^ (width i - 1) - 1 else 2 ^ width i - 1
  end.

Definition in_range (i : integral) (z : Z) : Prop :=
  min_value i <= z <= max_value i.

Definition in_rangeb (i : integral) (z : Z) : bool :=
  (min_value i <=? z) && (z <=? max_value i).

(** Integral promotion: a type narrower than [int] is promoted to [int],
    which represents all its values; [wchar_t] and [char32_t] go to the
    first of [int], [unsigned int] that does. *)
Definition promote (i : integral) : integral :=
  match i with
  | bool_t | char_t | signed_char | unsigned_char
  | char8_t | char16_t | short | unsigned_short | wchar_t => int
  | char32_t => unsigned_int
  | _ => i
  end.

(** Conversion of an integer to the integral type [i]: to [bool] by
    comparison with zero, otherwise the value of the destination type
    congruent to the source modulo [2 ^ width i]. *)
Definition convert (i : integral) (z : Z) : Z :=
  match i with
  | bool_t => if z =? 0 then 0 else 1
  | _ =>
      if is_signed i
      then (z + 2 ^ (width i - 1)) mod 2 ^ width i - 2 ^ (width i - 1)
      else z mod 2 ^ width i
  end.

(** [a + b] at an operand type that promotion leaves alone: unsigned
    arithmetic is modular, a signed sum that is not representable is
    undefined. *)
Definition add_promoted (p : integral) (a b : Z) : option Z :=
  if is_signed p
  then if in_rangeb p (a + b) then Some (a + b) else None
  else Some ((a + b) mod 2 ^ width p).

(** [a + b] for operands of type [i], converted back to [i]. *)
Definition integral_add (i : integral) (a b : Z) : option Z :=
  match add_promoted (promote i) a b with
  | Some r => Some (convert i r)
  | None => None
  end.

(** Precision and exponent bound of each floating-point format. *)
Definition prec (f : floating_point) : Z :=
  match f with float_t => 24 | double_t => 53 | long_double_t => 64 end.

Definition emax (f : floating_point) : Z :=
  match f with float_t => 128 | double_t => 1024 | long_double_t => 16384 end.

Definition floating_add (f : floating_point) (a b : spec_float) : spec_float :=
  SFadd (prec f) (emax f) a b.

Definition value (t : numeric) : Type :=
  match t with
  | Integral _ => Z
  | Floating _ => spec_float
  end.

(** The built-in binary [+] on two operands of the same arithmetic type,
    with the result converted to that type. *)
Definition builtin_add (t : numeric) : value t -> value t -> option (value t) :=
  match t with
  | Integral i => integral_add i
  | Floating f => fun a b => Some (floating_add f a b)
  end.

(** An object of the arithmetic type [t]. *)
Record num (t : numeric) : Type := mk_num { val : value t }.
Arguments mk_num {t} _.
Arguments val {t} _.

(** Nearest value of the format [f] to the decimal [m / 10 ^ k], for [m]
    and [10 ^ k] below [2 ^ prec f]: the correctly rounded quotient of two
    exactly represented integers. *)
Definition of_decimal (f : floating_point) (m : Z) (k : Z) : spec_float :=
  SFdiv (prec f) (emax f)
    (binary_normalize (prec f) (emax f) m 0 false)
    (binary_normalize (prec f) (emax f) (10 ^ k) 0 false).

End Builtin.

Import Builtin.

Definition float : Type := num (Floating float_t).

(** A [float] literal [m / 10 ^ k], as in [1.2f]. *)
Definition float_lit (m k : Z) : float :=
  mk_num (t := Floating float_t) (of_decimal float_t m k).

(** ** Add.h *)

(** [Add<Self, Rhs, Out>]: an object that stores the [Self] it was
    constructed from. *)
Record Add (Self Rhs Out : Type) : Type := mkAdd { self : Self }.
Arguments mkAdd {Self Rhs Out} _.
Arguments self {Self Rhs Out} _.

(** An implementation of [add] for the triple [(Self, Rhs, Out)]; a template
    specialisation of [Add] is an instance. *)
Class AddTrait (Self Rhs Out : Type) : Type :=
  { add : Add Self Rhs Out -> Rhs -> option Out }.

(** [Add<Dyn, Rhs, Out>]: its one member is the callable [add]. *)
Record DynAdd (Rhs Out : Type) : Type :=
  mkDynAdd { dyn_add : Rhs -> option Out }.
Arguments mkDynAdd {Rhs Out} _.
Arguments dyn_add {Rhs Out} _ _.

(** The converting constructor: the lambda captures [s] by value and, when
    called, builds [Add<Self, Rhs, Out>(s)] and calls its [add]. *)
Definition DynAdd_of {Self Rhs Out : Type} `{AddTrait Self Rhs Out}
    (s : Self) : DynAdd Rhs Out :=
  mkDynAdd (fun rhs => add (mkAdd s) rhs).

(** [Add<Self>] for [Self] integral or floating-point. *)
#[export] Instance Add_numeric (t : numeric) :
    AddTrait (num t) (num t) (num t) :=
  { add := fun this other =>
      match builtin_add t (val (self this)) (val other) with
      | Some r => Some (mk_num r)
      | None => None
      end }.

(** [operator+] for every [Self] with an implementation. *)
Definition operator_plus {Self Rhs Out : Type} `{AddTrait Self Rhs Out}
    (lhs : Self) (rhs : Rhs) : option Out :=
  add (mkAdd lhs) rhs.

(** [operator+] for a dynamically dispatched left operand. *)
Definition operator_plus_dyn {Rhs Out : Type}
    (lhs : DynAdd Rhs Out) (rhs : Rhs) : option Out :=
  dyn_add lhs rhs.

(** ** Point.h *)

Record Point (T : Type) : Type := mkPoint { x : T; y : T }.
Arguments mkPoint {T} _ _.
Arguments x {T} _.
Arguments y {T} _.

(** [Add<Point<T>>], for [T] with [AddTrait<T>].  The two coordinate sums are
    written [self.x + other.x]: [operator+] at [T] when [T] is a class type,
    the built-in [+] when [T] is arithmetic, which is what [Add<T>::add]
    computes. *)
#[export] Instance Add_Point (T : Type) `{AddTrait T T T} :
    AddTrait (Point T) (Point T) (Point T) :=
  { add := fun this other =>
      match operator_plus (x (self this)) (x other) with
      | Some x_sum =>
          match operator_plus (y (self this)) (y other) with
          | Some y_sum => Some {| x := x_sum; y := y_sum |}
          | None => None
          end
      | None => None
      end }.

(** [Add<Point<float>, float, float>]. *)
#[export] Instance Add_Point_float_float : AddTrait (Point float) float float :=
  { add := fun this rhs =>
      match builtin_add (Floating float_t) (val (x (self this))) (val rhs) with
      | Some r => Some (mk_num r)
      | None => None
      end }.

(** ** Formatted output

    [std::ostream::operator<<] for the operand types the driver prints.  A
    [float] is widened to [double], which keeps its value, and converted as
    by [printf] with [%g] at the stream's precision, 6 by default. *)

Module Iostream.

Local Open Scope string_scope.
Local Open Scope Z_scope.

(** The characters written to the stream so far. *)
Definition ostream : Type := string.

Definition precision : nat := 6.

Definition digit (d : Z) : ascii := ascii_of_nat (48 + Z.to_nat d).

(** The [n] low-order decimal digits of [z], most significant first. *)
Fixpoint digits (n : nat) (z : Z) : string :=
  match n with
  | O => EmptyString
  | S n' => digits n' (z / 10) ++ String (digit (z mod 10)) EmptyString
  end.

(** Number of decimal digits of [q >= 1]. *)
Fixpoint ndigits (fuel : nat) (q : Z) : nat :=
  match fuel with
  | O => O
  | S fuel' => if q <? 10 then 1%nat else S (ndigits fuel' (q / 10))
  end.

Definition count_digits (q : Z) : nat := ndigits (S (Z.to_nat (Z.log2 q))) q.

(** Least [k] with [n * 10 ^ k >= d]. *)
Fixpoint scale_up (fuel : nat) (n d : Z) : Z :=
  match fuel with
  | O => 0
  | S fuel' => if d <=? n then 0 else 1 + scale_up fuel' (n * 10) d
  end.

(** The decimal exponent of the positive rational [n / d]: the [e] with
    [10 ^ e <= n / d < 10 ^ (e + 1)]. *)
Definition exponent10 (n d : Z) : Z :=
  if d <=? n
  then Z.of_nat (count_digits (n / d)) - 1
  else - scale_up (S (Z.to_nat (Z.log2 d))) n d.

(** [n / d] rounded to the nearest integer, ties to even. *)
Definition round_half_even (n d : Z) : Z :=
  let q := n / d in
  match 2 * (n mod d) ?= d with
  | Lt => q
  | Gt => q + 1
  | Eq => if Z.even q then q else q + 1
  end.

(** [n / d] to [p] significant decimal digits: the digits as an integer of
    [p] digits and the decimal exponent of the rounded value. *)
Definition significant (p : nat) (n d : Z) : Z * Z :=
  let e := exponent10 n d in
  let sh := Z.of_nat p - 1 - e in
  let m := if 0 <=? sh
           then round_half_even (n * 10 ^ sh) d
           else round_half_even n (d * 10 ^ (- sh)) in
  if m =? 10 ^ Z.of_nat p then (10 ^ (Z.of_nat p - 1), e + 1) else (m, e).

(** Removal of the trailing zeros of a fractional part. *)
Fixpoint strip_zeros (s : string) : string :=
  match s with
  | EmptyString => EmptyString
  | String c r =>
      match strip_zeros r with
      | EmptyString =>
          if Ascii.eqb c "0" then EmptyString else String c EmptyString
      | r' => String c r'
      end
  end.

(** Integer part and fractional part, the point dropped when no fractional
    digit remains. *)
Definition with_fraction (ip frac : string) : string :=
  match strip_zeros frac with
  | EmptyString => ip
  | f => ip ++ "." ++ f
  end.

Fixpoint zeros (n : nat) : string :=
  match n with
  | O => EmptyString
  | S n' => String "0" (zeros n')
  end.

(** The exponent part of the scientific style: sign and at least two
    digits. *)
Definition exponent_part (e : Z) : string :=
  let a := Z.abs e in
  "e" ++ (if e <? 0 then "-" else "+")
      ++ digits (Nat.max 2 (count_digits a)) a.

(** [%g] at precision [p] of the positive rational [n / d]. *)
Definition general (p : nat) (n d : Z) : string :=
  let '(m, e) := significant p n d in
  let ds := digits p m in
  if (-4 <=? e) && (e <? Z.of_nat p)
  then
    if 0 <=? e
    then with_fraction (substring 0 (S (Z.to_nat e)) ds)
                       (substring (S (Z.to_nat e)) (p - 1 - Z.to_nat e) ds)
    else with_fraction "0" (zeros (Z.to_nat (- e - 1)) ++ ds)
  else with_fraction (substring 0 1 ds) (substring 1 (p - 1) ds)
         ++ exponent_part e.

(** [%g] at precision [p] of a floating-point value. *)
Definition format_general (p : nat) (v : spec_float) : string :=
  let p := Nat.max 1 p in
  match v with
  | S754_zero s => if s then "-0" else "0"
  | S754_infinity s => if s then "-inf" else "inf"
  | S754_nan => "nan"
  | S754_finite s m e =>
      (if s then "-" else EmptyString)
      ++ (if 0 <=? e
          then general p (Zpos m * 2 ^ e) 1
          else general p (Zpos m) (2 ^ (- e)))
  end.

(** [os << f] for a [float]. *)
Definition put_float (f : float) (os : ostream) : ostream :=
  os ++ format_general precision (val f).

(** [os << c] for a [char]. *)
Definition put_char (c : ascii) (os : ostream) : ostream :=
  os ++ String c EmptyString.

(** [os << s] for a character string. *)
Definition put_string (s : string) (os : ostream) : ostream :=
  os ++ s.

End Iostream.

(** ** main.cpp *)

Module Driver.

Import Iostream.
Local Open Scope string_scope.

(** The objects with automatic storage in [main]. *)
Record frame : Type := mkFrame
  { a : Point float;
    b : Point float;
    sum : Point float;
    floating_point : float;
    v_lhs : list (DynAdd float float);
    s : float }.

Definition set_a (v : Point float) (fr : frame) : frame :=
  mkFrame v (b fr) (sum fr) (floating_point fr) (v_lhs fr) (s fr).
Definition set_b (v : Point float) (fr : frame) : frame :=
  mkFrame (a fr) v (sum fr) (floating_point fr) (v_lhs fr) (s fr).
Definition set_sum (v : Point float) (fr : frame) : frame :=
  mkFrame (a fr) (b fr) v (floating_point fr) (v_lhs fr) (s fr).
Definition set_floating_point (v : float) (fr : frame) : frame :=
  mkFrame (a fr) (b fr) (sum fr) v (v_lhs fr) (s fr).
Definition set_v_lhs (v : list (DynAdd float float)) (fr : frame) : frame :=
  mkFrame (a fr) (b fr) (sum fr) (floating_point fr) v (s fr).
Definition set_s (v : float) (fr : frame) : frame :=
  mkFrame (a fr) (b fr) (sum fr) (floating_point fr) (v_lhs fr) v.

(** The state a statement of [main] runs in: its locals and [std::cout]. *)
Record state : Type := mkState { locals : frame; cout : ostream }.

(** A statement: it fails on undefined behaviour, otherwise returns a value
    and the next state. *)
Definition Prog (A : Type) : Type := state -> option (A * state).

Definition ret {A : Type} (v : A) : Prog A := fun st => Some (v, st).

Definition bind {A B : Type} (c : Prog A) (k : A -> Prog B) : Prog B :=
  fun st =>
    match c st with
    | Some (v, st') => k v st'
    | None => None
    end.

Declare Scope prog_scope.
Delimit Scope prog_scope with prog.
Notation "v <- c ;; k" := (bind c (fun v => k))
  (at level 61, c at next level, right associativity) : prog_scope.
Notation "c ;; k" := (bind c (fun _ => k))
  (at level 61, right associativity) : prog_scope.
Local Open Scope prog_scope.

(** A copy of the value of a local. *)
Definition read {T : Type} (get : frame -> T) : Prog T :=
  fun st => Some (get (locals st), st).

(** Initialisation of a local. *)
Definition init {T : Type} (set : T -> frame -> frame) (v : T) : Prog unit :=
  fun st => Some (tt, mkState (set v (locals st)) (cout st)).

(** The outcome of an operator call. *)
Definition eval {T : Type} (r : option T) : Prog T :=
  fun st =>
    match r with
    | Some v => Some (v, st)
    | None => None
    end.

(** [std::cout << ...]. *)
Definition print (put : ostream -> ostream) : Prog unit :=
  fun st => Some (tt, mkState (locals st) (put (cout st))).

(** A range-based [for] over the elements of a vector. *)
Fixpoint for_each {A : Type} (range : list A) (body : A -> Prog unit) :
    Prog unit :=
  match range with
  | [] => ret tt
  | e :: range' => body e ;; for_each range' body
  end.

Definition newline : ascii := ascii_of_nat 10.

(** [Point<float> a { .x = 1.f, .y = 1.f };] *)
Definition decl_a : Prog unit :=
  init set_a {| x := float_lit 1 0; y := float_lit 1 0 |}.

(** [Point<float> b { .x = 2.f, .y = 2.f };] *)
Definition decl_b : Prog unit :=
  init set_b {| x := float_lit 2 0; y := float_lit 2 0 |}.

(** [auto sum = a + b;], both operands passed by value. *)
Definition decl_sum : Prog unit :=
  lhs <- read a ;;
  rhs <- read b ;;
  r <- eval (operator_plus lhs rhs) ;;
  init set_sum r.

(** [std::cout << sum.x << ' ' << sum.y << '\n';] *)
Definition print_sum : Prog unit :=
  v <- read sum ;;
  print (put_float (x v)) ;;
  print (put_char " ") ;;
  print (put_float (y v)) ;;
  print (put_char newline).

(** [float floating_point = 1.2f;] *)
Definition decl_floating_point : Prog unit :=
  init set_floating_point (float_lit 12 1).

(** [std::vector<DynAdd<float, float>> v_lhs = { floating_point, a };],
    each element converted from a copy of the local. *)
Definition decl_v_lhs : Prog unit :=
  f <- read floating_point ;;
  p <- read a ;;
  init set_v_lhs [DynAdd_of f; DynAdd_of p].

(** The body of the loop, for the element [lhs]. *)
Definition loop_body (lhs : DynAdd float float) : Prog unit :=
  r <- eval (operator_plus_dyn lhs (float_lit 12 1)) ;;
  init set_s r ;;
  v <- read s ;;
  print (put_string "sum = ") ;;
  print (put_float v) ;;
  print (put_char newline).

(** [for (const auto& lhs: v_lhs) { ... }] *)
Definition loop : Prog unit :=
  range <- read v_lhs ;;
  for_each range loop_body.

Definition main : Prog Z :=
  decl_a ;;
  decl_b ;;
  decl_sum ;;
  print_sum ;;
  decl_floating_point ;;
  decl_v_lhs ;;
  loop ;;
  ret 0%Z.

(** The lines of a text, each ended by a newline character; characters
    after the last newline are an unfinished line and are left out. *)
Fixpoint lines_from (cur : string) (t : string) : list string :=
  match t with
  | EmptyString => []
  | String c t' =>
      if Ascii.eqb c newline
      then cur :: lines_from EmptyString t'
      else lines_from (cur ++ String c EmptyString) t'
  end.

Definition lines (t : string) : list string := lines_from EmptyString t.

End Driver.

Import Iostream Driver.

(** * Vocabulary of the statements *)

(** Binary32 addition of two [float] objects. *)
Definition float_add (u v : float) : float :=
  mk_num (t := Floating float_t) (floating_add float_t (val u) (val v)).

(** The object of the integral type [i] with value [z]. *)
Definition integer (i : integral) (z : Z) : num (Integral i) :=
  mk_num (t := Integral i) z.

(** The element a [float] or a [Point<float>] converts to in a
    [std::vector<DynAdd<float, float>>]. *)
Definition wrap (e : float + Point float) : DynAdd float float :=
  match e with
  | inl f => DynAdd_of f
  | inr p => DynAdd_of p
  end.

(** A line of text with its newline. *)
Definition line (t : string) : string :=
  (t ++ String newline EmptyString)%string.

(** The text made of the given lines, each ended by a newline. *)
Fixpoint text_of_lines (ls : list string) : string :=
  match ls with
  | [] => EmptyString
  | l :: ls' => (line l ++ text_of_lines ls')%string
  end.

(** The line the loop prints for the sum [r]. *)
Definition sum_line (r : float) : string :=
  ("sum = " ++ format_general precision (val r))%string.

(** The values [main] gives to [a] and [b]. *)
Definition a0 : Point float := {| x := float_lit 1 0; y := float_lit 1 0 |}.
Definition b0 : Point float := {| x := float_lit 2 0; y := float_lit 2 0 |}.

(** Initial contents of the locals for the concrete runs below. *)
Definition frame0 : frame :=
  {| a := {| x := float_lit 0 0; y := float_lit 0 0 |};
     b := {| x := float_lit 0 0; y := float_lit 0 0 |};
     sum := {| x := float_lit 0 0; y := float_lit 0 0 |};
     floating_point := float_lit 0 0;
     v_lhs := [];
     s := float_lit 0 0 |}.

(** The locals when [main] returns. *)
Definition final_frame : frame :=
  {| a := a0;
     b := b0;
     sum := {| x := float_lit 3 0; y := float_lit 3 0 |};
     floating_point := float_lit 12 1;
     v_lhs := [DynAdd_of (float_lit 12 1); DynAdd_of a0];
     s := float_lit 22 1 |}.

(** All that [main] writes. *)
Definition main_text : string :=
  (line "3 3" ++ line "sum = 2.4" ++ line "sum = 2.2")%string.

(** The floating-point values that have no decimal literal. *)
Definition nan_of (f : Builtin.floating_point) : num (Floating f) :=
  mk_num (t := Floating f) S754_nan.
Definition zero_of (f : Builtin.floating_point) (negative : bool) :
    num (Floating f) :=
  mk_num (t := Floating f) (S754_zero negative).
Definition infinity_of (f : Builtin.floating_point) (negative : bool) :
    num (Floating f) :=
  mk_num (t := Floating f) (S754_infinity negative).

(** A second addition applied to the outcome of a first one. *)
Definition and_then {A B : Type} (o : option A) (k : A -> option B) :
    option B :=
  match o with
  | Some v => k v
  | None => None
  end.


(** * Properties *)

(** ** Built-in addition *)

Lemma in_rangeb_spec (i : integral) (z : Z) :
  in_rangeb i z = true <-> in_range i z.
Proof.
  unfold in_rangeb, in_range.
  rewrite andb_true_iff, !Z.leb_le. tauto.
Qed.

Lemma in_rangeb_false (i : integral) (z : Z) :
  ~ in_range i z -> in_rangeb i z = false.
Proof.
  intros Hn. destruct (in_rangeb i z) eqn:E; [|reflexivity].
  apply in_rangeb_spec in E. contradiction.
Qed.

Lemma signed_wrap_id (w z : Z) :
  0 < w -> - 2 ^ (w - 1) <= z <= 2 ^ (w - 1) - 1 ->
  (z + 2 ^ (w - 1)) mod 2 ^ w - 2 ^ (w - 1) = z.
Proof.
  intros Hw Hz.
  assert (E : 2 ^ w = 2 * 2 ^ (w - 1)).
  { replace w with (Z.succ (w - 1)) at 1 by lia. apply Z.pow_succ_r. lia. }
  rewrite Z.mod_small by lia. lia.
Qed.

(** The sum of two operands of a type narrower than [int] is an [int]. *)
Lemma narrow_sum_in_int (i : integral) (a b : Z) :
  width i < 32 -> in_range i a -> in_range i b -> in_rangeb int (a + b) = true.
Proof.
  intros Hw Ha Hb. apply in_rangeb_spec.
  destruct i; unfold in_range, min_value, max_value in *; simpl in *; lia.
Qed.

(** Use of [narrow_sum_in_int] at the operand type of the hypothesis [Ha]. *)
Ltac sum_fits_int Ha Hb :=
  match type of Ha with
  | in_range ?i ?a =>
      match type of Hb with
      | in_range i ?b =>
          rewrite (narrow_sum_in_int i a b ltac:(simpl; lia) Ha Hb)
      end
  end.

(** C5.  The primitive implementation returns the built-in sum of its two
    operands with nothing added: for a floating-point type the IEEE sum in
    that format; for an unsigned integer type of [w] bits the sum modulo
    [2 ^ w]; for [bool] the disjunction; for a signed type the exact sum
    when it is representable, and when it is not, the wrapped sum for a type
    narrower than [int] and no defined result for [int] and wider. *)
Theorem Add_numeric_native :
  (forall (f : Builtin.floating_point) (u v : num (Floating f)),
      operator_plus u v
      = Some (mk_num (t := Floating f)
                (SFadd (prec f) (emax f) (val u) (val v))))
  /\ (forall (i : integral) (u v : num (Integral i)),
        is_signed i = false -> i <> bool_t ->
        in_range i (val u) -> in_range i (val v) ->
        operator_plus u v
        = Some (mk_num (t := Integral i) ((val u + val v) mod 2 ^ width i)))
  /\ (forall u v : num (Integral bool_t),
        in_range bool_t (val u) -> in_range bool_t (val v) ->
        operator_plus u v
        = Some (mk_num (t := Integral bool_t)
                  (if (val u =? 0) && (val v =? 0) then 0 else 1)))
  /\ (forall (i : integral) (u v : num (Integral i)),
        is_signed i = true ->
        in_range i (val u) -> in_range i (val v) ->
        in_range i (val u + val v) ->
        operator_plus u v = Some (mk_num (t := Integral i) (val u + val v)))
  /\ (forall (i : integral) (u v : num (Integral i)),
        is_signed i = true -> width i < 32 ->
        in_range i (val u) -> in_range i (val v) ->
        operator_plus u v
        = Some (mk_num (t := Integral i) (convert i (val u + val v))))
  /\ (forall (i : integral) (u v : num (Integral i)),
        is_signed i = true -> 32 <= width i ->
        ~ in_range i (val u + val v) ->
        operator_plus u v = None).
Proof.
  repeat apply conj.
  - intros f u v. reflexivity.
  - intros i [a] [b] Hs Hb Ha Hb'. simpl in Ha, Hb'.
    unfold operator_plus; simpl.
    destruct i; try discriminate Hs; try congruence;
      unfold integral_add; simpl promote;
      first
        [ (* promoted to [int] *)
          unfold add_promoted; simpl is_signed; cbv iota;
          sum_fits_int Ha Hb';
          reflexivity
        | (* computed at the unsigned type itself *)
          unfold add_promoted, convert; simpl is_signed; cbv iota;
          simpl width; rewrite Z.mod_mod by lia; reflexivity ].
  - intros [a] [b] Ha Hb. simpl in Ha, Hb.
    unfold operator_plus; simpl.
    unfold integral_add; simpl promote.
    unfold add_promoted; simpl is_signed; cbv iota.
    sum_fits_int Ha Hb.
    unfold in_range, min_value, max_value in Ha, Hb; simpl in Ha, Hb.
    unfold convert.
    destruct (Z.eqb_spec a 0), (Z.eqb_spec b 0), (Z.eqb_spec (a + b) 0);
      simpl; try reflexivity; lia.
  - intros i [a] [b] Hs Ha Hb Hab. simpl in Ha, Hb, Hab.
    unfold operator_plus; simpl.
    assert (Hc : convert i (a + b) = a + b).
    { destruct i; try discriminate Hs; unfold convert; simpl is_signed;
        cbv iota; apply signed_wrap_id; first [exact Hab | simpl; lia]. }
    destruct i; try discriminate Hs;
      unfold integral_add; simpl promote;
      first
        [ unfold add_promoted; simpl is_signed; cbv iota;
          sum_fits_int Ha Hb;
          rewrite Hc; reflexivity
        | unfold add_promoted; simpl is_signed; cbv iota;
          rewrite (proj2 (in_rangeb_spec _ _) Hab); rewrite Hc; reflexivity
        | (* [wchar_t], promoted to [int], which has its range *)
          unfold add_promoted; simpl is_signed; cbv iota;
          rewrite (proj2 (in_rangeb_spec int (a + b)) Hab); rewrite Hc;
          reflexivity ].
  - intros i [a] [b] Hs Hw Ha Hb. simpl in Ha, Hb.
    unfold operator_plus; simpl.
    unfold integral_add.
    replace (promote i) with int
      by (destruct i; try discriminate Hs; simpl in Hw; try lia; reflexivity).
    unfold add_promoted; simpl is_signed; cbv iota.
    rewrite (narrow_sum_in_int i a b Hw Ha Hb). reflexivity.
  - intros i [a] [b] Hs Hw Hn. simpl in Hn.
    unfold operator_plus; simpl.
    unfold integral_add.
    destruct i; try discriminate Hs; simpl in Hw; try lia;
      simpl promote; unfold add_promoted; simpl is_signed; cbv iota.
    + (* wchar_t *)
      rewrite (in_rangeb_false int (a + b)); [reflexivity|exact Hn].
    + rewrite (in_rangeb_false _ _ Hn); reflexivity.
    + rewrite (in_rangeb_false _ _ Hn); reflexivity.
    + rewrite (in_rangeb_false _ _ Hn); reflexivity.
Qed.

(** Concrete instances of C5: [unsigned char] 200 + 100, [bool] true + true,
    [int] 1 + 2, [short] 32767 + 1 and [int] 2147483647 + 1. *)
Lemma Add_numeric_native_witness :
  operator_plus (integer unsigned_char 200) (integer unsigned_char 100)
  = Some (integer unsigned_char ((200 + 100) mod 2 ^ 8))
  /\ operator_plus (integer bool_t 1) (integer bool_t 1)
     = Some (integer bool_t 1)
  /\ operator_plus (integer int 1) (integer int 2)
     = Some (integer int 3)
  /\ operator_plus (integer short 32767) (integer short 1)
     = Some (integer short (-32768))
  /\ operator_plus (integer int 2147483647) (integer int 1)
     = (None : option (num (Integral int))).
Proof.
  destruct Add_numeric_native as (_ & Hu & Hb & Hs & Hn & Ho).
  split.
  { apply (Hu unsigned_char (integer _ 200) (integer _ 100));
      [reflexivity | discriminate | vm_compute; split; discriminate ..]. }
  split.
  { apply (Hb (integer _ 1) (integer _ 1)); vm_compute; split; discriminate. }
  split.
  { apply (Hs int (integer _ 1) (integer _ 2));
      [reflexivity | vm_compute; split; discriminate ..]. }
  split.
  { apply (Hn short (integer _ 32767) (integer _ 1));
      [reflexivity | reflexivity | vm_compute; split; discriminate ..]. }
  apply (Ho int (integer _ 2147483647) (integer _ 1));
    [reflexivity | vm_compute; discriminate | ].
  vm_compute. intros [_ H]. apply H. reflexivity.
Defined.

(** ** The trait and its implementations *)

Lemma operator_plus_Point_float (p q : Point float) :
  operator_plus p q
  = Some {| x := float_add (x p) (x q); y := float_add (y p) (y q) |}.
Proof. reflexivity. Qed.

Lemma Point_eta (T : Type) (r : Point T) : {| x := x r; y := y r |} = r.
Proof. destruct r; reflexivity. Qed.

(** A point of points adds coordinate by coordinate at every level. *)
Example nested_points :
  operator_plus {| x := a0; y := b0 |} {| x := b0; y := b0 |}
  = Some {| x := {| x := float_lit 3 0; y := float_lit 3 0 |};
            y := {| x := float_lit 4 0; y := float_lit 4 0 |} |}.
Proof. vm_compute. reflexivity. Qed.

(** An undefined coordinate sum leaves the sum of the points undefined. *)
Example point_of_int_overflow :
  operator_plus {| x := integer int 2147483647; y := integer int 0 |}
                {| x := integer int 1; y := integer int 0 |}
  = None.
Proof. reflexivity. Qed.

(** C1.  For every coordinate type [T] with an [Add] implementation and all
    points [p], [q] of [Point<T>], [p + q] is the point [r] exactly when
    [r.x] is the sum [p.x + q.x] and [r.y] is the sum [p.y + q.y], both
    computed by [T]'s own implementation: the addition is component-wise. *)
Theorem Point_add_componentwise (T : Type) `{AddTrait T T T} (p q r : Point T) :
  operator_plus p q = Some r
  <-> operator_plus (x p) (x q) = Some (x r)
      /\ operator_plus (y p) (y q) = Some (y r).
Proof.
  unfold operator_plus at 1; simpl.
  destruct (operator_plus (x p) (x q)) as [x_sum|] eqn:Ex;
    destruct (operator_plus (y p) (y q)) as [y_sum|] eqn:Ey; split.
  - intros E; injection E as <-; split; reflexivity.
  - intros [Hx Hy]. injection Hx as ->. injection Hy as ->.
    now rewrite Point_eta.
  - discriminate.
  - intros [_ Hy]; discriminate.
  - discriminate.
  - intros [Hx _]; discriminate.
  - discriminate.
  - intros [Hx _]; discriminate.
Qed.

(** C2.  For every [Point<float>] [p] and every [float] [rhs], the
    specialised [Add<Point<float>, float, float>] returns the binary32 sum
    [p.x + rhs], the value the built-in [float] addition gives, and the
    result is the same whatever [p.y] is. *)
Theorem Point_float_add_scalar (p : Point float) (rhs : float) :
  @add (Point float) float float Add_Point_float_float (mkAdd p) rhs
  = Some (mk_num (t := Floating float_t)
            (SFadd 24 128 (val (x p)) (val rhs)))
  /\ @add (Point float) float float Add_Point_float_float (mkAdd p) rhs
     = operator_plus (x p) rhs
  /\ forall y' : float,
       @add (Point float) float float Add_Point_float_float
         (mkAdd {| x := x p; y := y' |}) rhs
       = @add (Point float) float float Add_Point_float_float (mkAdd p) rhs.
Proof.
  split; [reflexivity | split; [reflexivity | intros y'; reflexivity]].
Qed.

(** C3.  For every type [V] with an implementation of [Add<V, Rhs, Out>],
    every [v] and every [rhs], the wrapper built from [v] returns from
    [add(rhs)] what [Add<V, Rhs, Out>(v).add(rhs)] returns, and the two
    [operator+] overloads agree in the same way. *)
Theorem DynAdd_agrees_with_static (V Rhs Out : Type) `{AddTrait V Rhs Out}
    (v : V) (rhs : Rhs) :
  dyn_add (DynAdd_of v) rhs = add (mkAdd v) rhs
  /\ operator_plus_dyn (DynAdd_of v) rhs = operator_plus v rhs.
Proof. split; reflexivity. Qed.

Lemma dispatch_per_element (l : list (float + Point float)) (rhs : float) :
  map (fun lhs => operator_plus_dyn lhs rhs) (map wrap l)
  = map (fun e => match e with
                  | inl f => Some (float_add f rhs)
                  | inr p => Some (float_add (x p) rhs)
                  end) l.
Proof.
  induction l as [|[f|p] l IH]; simpl; [reflexivity | f_equal; exact IH ..].
Qed.

(** C4.  In a sequence of [DynAdd<float, float>] holding a wrapped [float]
    [f] and a wrapped [Point<float>] [p], in either order, adding [rhs] to
    each element gives the built-in sum [f + rhs] for the first and the
    point-plus-scalar sum [p.x + rhs] for the second. *)
Theorem heterogeneous_dispatch (f : float) (p : Point float) (rhs : float) :
  map (fun lhs => operator_plus_dyn lhs rhs) [DynAdd_of f; DynAdd_of p]
  = [operator_plus f rhs;
     @add (Point float) float float Add_Point_float_float (mkAdd p) rhs]
  /\ map (fun lhs => operator_plus_dyn lhs rhs) [DynAdd_of p; DynAdd_of f]
     = [Some (float_add (x p) rhs); Some (float_add f rhs)]
  /\ map (fun lhs => operator_plus_dyn lhs rhs) [DynAdd_of f; DynAdd_of p]
     = [Some (float_add f rhs); Some (float_add (x p) rhs)].
Proof.
  repeat split.
Qed.

(** ** The driver *)

(** The two styles of [%g] and the removal of trailing zeros. *)
Example format_general_styles :
  map (fun f : float => format_general precision (val f))
    [float_lit 100000 0; float_lit 1000000 0; float_lit 9999995 1;
     float_lit 1 4; float_lit 1 5; float_lit 25 1; float_lit 12 1]
  = ["100000"; "1e+06"; "1e+06"; "0.0001"; "1e-05"; "2.5"; "1.2"]%string.
Proof. vm_compute. reflexivity. Qed.

(** The encodings of the literals of [main]: [1.2f] is
    [10066330 * 2 ^ -23], within half a unit in the last place of 1.2. *)
Example float_literals :
  val (float_lit 1 0) = S754_finite false 8388608 (-23)
  /\ val (float_lit 2 0) = S754_finite false 8388608 (-22)
  /\ val (float_lit 12 1) = S754_finite false 10066330 (-23)
  /\ 2 * Z.abs (10 * 10066330 - 12 * 2 ^ 23) <= 10.
Proof. repeat split; vm_compute; congruence. Qed.

Lemma append_assoc (u v w : string) :
  ((u ++ v) ++ w = u ++ (v ++ w))%string.
Proof.
  induction u as [|c u IH]; simpl; [reflexivity | now rewrite IH].
Qed.

Lemma append_empty_r (u : string) : (u ++ EmptyString)%string = u.
Proof.
  induction u as [|c u IH]; simpl; [reflexivity | now rewrite IH].
Qed.

Lemma main_run (st : state) :
  main st = Some (0, mkState final_frame (cout st ++ main_text)%string).
Proof.
  destruct st as [fr out].
  cbv - [append format_general floating_add of_decimal final_frame main_text].
  rewrite !append_assoc.
  reflexivity.
Qed.

Lemma run_loop_body (lhs : DynAdd float float) (r : float) (st : state) :
  operator_plus_dyn lhs (float_lit 12 1) = Some r ->
  loop_body lhs st
  = Some (tt, mkState (set_s r (locals st))
                (cout st ++ line (sum_line r))%string).
Proof.
  intros Er. destruct st as [fr out].
  unfold loop_body, bind, eval. rewrite Er.
  unfold init, read, print, put_string, put_float, put_char, line, sum_line.
  simpl. rewrite !append_assoc. reflexivity.
Qed.

(** The loop, over any vector whose elements all have a defined sum with
    [1.2f], writes one line per element, in order. *)
Lemma for_each_loop_body (range : list (DynAdd float float)) :
  forall (results : list float) (st : state),
    map (fun lhs => operator_plus_dyn lhs (float_lit 12 1)) range
    = map Some results ->
    exists fr' : frame,
      for_each range loop_body st
      = Some (tt, mkState fr'
                    (cout st ++ text_of_lines (map sum_line results))%string).
Proof.
  induction range as [|lhs range IH]; intros results st E.
  - destruct results; [|discriminate E].
    exists (locals st). simpl. rewrite append_empty_r.
    destruct st; reflexivity.
  - destruct results as [|r results]; [discriminate E|].
    simpl in E. injection E as Er Erest.
    destruct (IH results
                (mkState (set_s r (locals st))
                   (cout st ++ line (sum_line r))%string) Erest)
      as [fr' Hrest].
    exists fr'.
    change (for_each (lhs :: range) loop_body)
      with (bind (loop_body lhs) (fun _ => for_each range loop_body)).
    unfold bind at 1.
    rewrite (run_loop_body lhs r st Er), Hrest.
    cbn [cout map text_of_lines]. rewrite append_assoc. reflexivity.
Qed.

(** C6.  [a + b] for [a = {1, 1}] and [b = {2, 2}] is the point [{3, 3}],
    whose coordinates are the number 3, and the first line [main] writes is
    [3 3]. *)
Theorem static_sum_first_line :
  operator_plus a0 b0 = Some {| x := float_lit 3 0; y := float_lit 3 0 |}
  /\ val (float_lit 3 0) = S754_finite false 12582912 (-22)
  /\ 12582912 = 3 * 2 ^ 22
  /\ forall fr : frame, exists st' : state,
       main (mkState fr EmptyString) = Some (0, st')
       /\ a (locals st') = a0 /\ b (locals st') = b0
       /\ sum (locals st') = {| x := float_lit 3 0; y := float_lit 3 0 |}
       /\ nth_error (lines (cout st')) 0 = Some "3 3"%string.
Proof.
  split; [vm_compute; reflexivity|].
  split; [vm_compute; reflexivity|].
  split; [reflexivity|].
  intros fr. eexists. split; [apply main_run|].
  repeat split; vm_compute; reflexivity.
Qed.

(** C7.  In the loop of [main], the wrapper of the [float] [1.2f] plus [1.2f]
    is the [float] nearest to 2.4 and its line is [sum = 2.4]; the wrapper
    of the point [{1, 1}] plus [1.2f] is the [float] nearest to 2.2, whatever
    the point's [y], and its line is [sum = 2.2]; the two lines follow the
    first line in that order.  The two results are [m * 2 ^ -22] for the
    stated [m], each within half a unit in the last place, [2 ^ -23], of the
    decimal. *)
Theorem dynamic_sums_and_lines :
  operator_plus_dyn (DynAdd_of (float_lit 12 1)) (float_lit 12 1)
  = Some (float_lit 24 1)
  /\ operator_plus_dyn (DynAdd_of a0) (float_lit 12 1) = Some (float_lit 22 1)
  /\ (forall y' : float,
        operator_plus_dyn (DynAdd_of {| x := float_lit 1 0; y := y' |})
          (float_lit 12 1)
        = Some (float_lit 22 1))
  /\ val (float_lit 24 1) = S754_finite false 10066330 (-22)
  /\ val (float_lit 22 1) = S754_finite false 9227469 (-22)
  /\ 2 * Z.abs (10 * 10066330 - 24 * 2 ^ 22) <= 10
  /\ 2 * Z.abs (10 * 9227469 - 22 * 2 ^ 22) <= 10
  /\ sum_line (float_lit 24 1) = "sum = 2.4"%string
  /\ sum_line (float_lit 22 1) = "sum = 2.2"%string
  /\ forall fr : frame, exists st' : state,
       main (mkState fr EmptyString) = Some (0, st')
       /\ v_lhs (locals st') = [DynAdd_of (float_lit 12 1); DynAdd_of a0]
       /\ tl (lines (cout st')) = ["sum = 2.4"; "sum = 2.2"]%string.
Proof.
  split; [vm_compute; reflexivity|].
  split; [vm_compute; reflexivity|].
  split; [intros y'; vm_compute; reflexivity|].
  split; [vm_compute; reflexivity|].
  split; [vm_compute; reflexivity|].
  split; [vm_compute; discriminate|].
  split; [vm_compute; discriminate|].
  split; [vm_compute; reflexivity|].
  split; [vm_compute; reflexivity|].
  intros fr. eexists. split; [apply main_run|].
  split; [reflexivity | vm_compute; reflexivity].
Qed.

(** C8, as stated, fails: started with nothing written, [main] does not
    write two lines. *)
Lemma main_not_two_lines :
  ~ (exists st' : state,
       main (mkState frame0 EmptyString) = Some (0, st')
       /\ List.length (lines (cout st')) = 2%nat).
Proof.
  intros [st' [E L]]. rewrite main_run in E. injection E as <-.
  vm_compute in L. discriminate L.
Qed.

(** C8, amended.  [main] acts on nothing but its locals and the standard
    output, to which it appends three lines: the first is the two
    coordinates of [sum = a + b] separated by a space, and the other two are,
    for each element of [v_lhs] in order, [sum = ] followed by the [float]
    that the element plus [1.2f] yields. *)
Theorem main_output_lines (st : state) :
  exists (st' : state) (first : string) (rest : list string),
    main st = Some (0, st')
    /\ cout st' = (cout st ++ text_of_lines (first :: rest))%string
    /\ lines (text_of_lines (first :: rest)) = first :: rest
    /\ List.length (first :: rest) = 3%nat
    /\ operator_plus (a (locals st')) (b (locals st')) = Some (sum (locals st'))
    /\ first = (format_general precision (val (x (sum (locals st'))))
                ++ " "
                ++ format_general precision (val (y (sum (locals st')))))%string
    /\ Forall2
         (fun lhs l =>
            exists r : float,
              operator_plus_dyn lhs (float_lit 12 1) = Some r
              /\ l = sum_line r)
         (v_lhs (locals st')) rest.
Proof.
  exists (mkState final_frame (cout st ++ main_text)%string).
  exists "3 3"%string, ["sum = 2.4"; "sum = 2.2"]%string.
  split; [apply main_run|].
  split; [reflexivity|].
  split; [vm_compute; reflexivity|].
  split; [reflexivity|].
  split; [vm_compute; reflexivity|].
  split; [vm_compute; reflexivity|].
  simpl v_lhs.
  constructor; [|constructor; [|constructor]].
  - exists (float_lit 24 1). split; vm_compute; reflexivity.
  - exists (float_lit 22 1). split; vm_compute; reflexivity.
Qed.

(** C9.  [main] has no failing run: from every state it returns, with exit
    code 0.  Each operation it uses is total on [float] operands, infinities
    and NaN included: the static sum of two points, the sum through either
    kind of wrapper, and the loop over any vector of wrapped [float]s and
    wrapped points. *)
Theorem main_no_error_path :
  (forall st : state, exists st' : state, main st = Some (0, st'))
  /\ (forall p q : Point float,
        exists r : Point float, operator_plus p q = Some r)
  /\ (forall f rhs : float,
        exists r : float, operator_plus_dyn (DynAdd_of f) rhs = Some r)
  /\ (forall (p : Point float) (rhs : float),
        exists r : float, operator_plus_dyn (DynAdd_of p) rhs = Some r)
  /\ (forall (l : list (float + Point float)) (st : state),
        exists st' : state,
          for_each (map wrap l) loop_body st = Some (tt, st')).
Proof.
  split; [intros st; eexists; apply main_run|].
  split; [intros p q; eexists; apply operator_plus_Point_float|].
  split; [intros f rhs; eexists; reflexivity|].
  split; [intros p rhs; eexists; reflexivity|].
  intros l st.
  destruct (for_each_loop_body (map wrap l)
              (map (fun e => match e with
                             | inl f => float_add f (float_lit 12 1)
                             | inr p => float_add (x p) (float_lit 12 1)
                             end) l) st) as [fr' E].
  - rewrite dispatch_per_element, map_map.
    apply map_ext. intros [f|p]; reflexivity.
  - eexists. exact E.
Qed.

(** C10.  Operands are passed and captured by value.  [auto sum = a + b]
    leaves [a] and [b] as they were; the declaration of [v_lhs] leaves
    [floating_point] and [a] as they were and wraps their values; in [main]
    the value of [a] that is wrapped is still [{1, 1}]; and what a wrapper
    returns is fixed by the value it was built from, whatever is stored in
    the locals afterwards. *)
Theorem operands_unchanged :
  (forall st : state,
      exists r : Point float,
        operator_plus (a (locals st)) (b (locals st)) = Some r
        /\ decl_sum st = Some (tt, mkState (set_sum r (locals st)) (cout st))
        /\ a (set_sum r (locals st)) = a (locals st)
        /\ b (set_sum r (locals st)) = b (locals st))
  /\ (forall st : state,
        exists fr' : frame,
          decl_v_lhs st = Some (tt, mkState fr' (cout st))
          /\ v_lhs fr' = [DynAdd_of (floating_point (locals st));
                          DynAdd_of (a (locals st))]
          /\ floating_point fr' = floating_point (locals st)
          /\ a fr' = a (locals st)
          /\ forall (p' : Point float) (f' rhs : float),
               map (fun lhs => operator_plus_dyn lhs rhs)
                 (v_lhs (set_a p' (set_floating_point f' fr')))
               = [operator_plus (floating_point (locals st)) rhs;
                  add (mkAdd (a (locals st))) rhs])
  /\ (forall st : state,
        exists st1 : state,
          (decl_a ;; decl_b ;; decl_sum ;; print_sum ;;
           decl_floating_point)%prog st
          = Some (tt, st1)
          /\ a (locals st1) = a0
          /\ b (locals st1) = b0
          /\ exists st2 : state,
               decl_v_lhs st1 = Some (tt, st2)
               /\ a (locals st2) = a0
               /\ v_lhs (locals st2)
                  = [DynAdd_of (float_lit 12 1); DynAdd_of a0])
  /\ (forall (f rhs : float),
        operator_plus_dyn (DynAdd_of f) rhs = operator_plus f rhs)
  /\ (forall (p : Point float) (rhs : float),
        operator_plus_dyn (DynAdd_of p) rhs = add (mkAdd p) rhs).
Proof.
  split.
  { intros [fr out]. eexists. split; [apply operator_plus_Point_float|].
    split; [reflexivity|]. split; reflexivity. }
  split.
  { intros [fr out]. eexists. split; [reflexivity|].
    repeat split. }
  split.
  { intros [fr out]. eexists. split; [reflexivity|].
    split; [reflexivity|]. split; [reflexivity|].
    eexists. split; [reflexivity|]. split; reflexivity. }
  split; intros; reflexivity.
Qed.

(** * Further properties of the implementations *)

(** ** Integral [Self] *)

Lemma convert_in_range (i : integral) (z : Z) : in_range i (convert i z).
Proof.
  unfold in_range, min_value, max_value.
  destruct i; unfold convert; simpl is_signed; cbv iota; simpl width;
    try (destruct (z =? 0); simpl; lia);
    match goal with
    | |- context [?n mod ?m] =>
        pose proof (Z.mod_pos_bound n m ltac:(simpl; lia)); simpl in *; lia
    end.
Qed.

Lemma convert_id (i : integral) (z : Z) : in_range i z -> convert i z = z.
Proof.
  intros Hz.
  destruct i; unfold in_range, min_value, max_value in Hz; simpl in Hz;
    unfold convert; simpl is_signed; cbv iota;
    first
      [ (* bool *)
        destruct (Z.eqb_spec z 0); lia
      | apply signed_wrap_id; simpl; lia
      | apply Z.mod_small; simpl; lia ].
Qed.

Lemma integral_add_comm (i : integral) (a b : Z) :
  integral_add i a b = integral_add i b a.
Proof.
  unfold integral_add, add_promoted. now rewrite (Z.add_comm a b).
Qed.

(** The sum of two in-range operands at the promoted type. *)
Lemma add_promoted_in_range (i : integral) (a b : Z) :
  in_range i a -> in_range i b ->
  add_promoted (promote i) a b
  = if is_signed i && (32 <=? width i) && negb (in_rangeb i (a + b))
    then None
    else Some (if is_signed (promote i)
               then a + b
               else (a + b) mod 2 ^ width (promote i)).
Proof.
  intros Ha Hb.
  destruct i; simpl promote; simpl is_signed; simpl width; simpl andb;
    unfold add_promoted; simpl is_signed; cbv iota;
    try (sum_fits_int Ha Hb; reflexivity);
    try reflexivity;
    destruct (in_rangeb _ (a + b)) eqn:E; simpl; try reflexivity;
    change (in_rangeb int (a + b)) with (in_rangeb wchar_t (a + b));
    rewrite E; reflexivity.
Qed.

Lemma integral_eq_bool (i : integral) : i = bool_t \/ i <> bool_t.
Proof. destruct i; (left; reflexivity) || (right; discriminate). Qed.

Lemma integral_add_unsigned (i : integral) (a b : Z) :
  is_signed i = false -> i <> bool_t -> in_range i a -> in_range i b ->
  integral_add i a b = Some ((a + b) mod 2 ^ width i).
Proof.
  intros Hs Hn Ha Hb. unfold integral_add.
  rewrite (add_promoted_in_range i a b Ha Hb), Hs. simpl andb. cbv iota.
  destruct i; try discriminate Hs; try congruence;
    simpl promote; simpl is_signed; cbv iota; unfold convert;
    simpl is_signed; cbv iota; simpl width;
    try reflexivity; rewrite Z.mod_mod by lia; reflexivity.
Qed.

Lemma integral_add_bool (a b : Z) :
  in_range bool_t a -> in_range bool_t b ->
  integral_add bool_t a b = Some (if (a =? 0) && (b =? 0) then 0 else 1).
Proof.
  intros Ha Hb. unfold integral_add.
  rewrite (add_promoted_in_range bool_t a b Ha Hb). simpl.
  unfold in_range, min_value, max_value in Ha, Hb; simpl in Ha, Hb.
  destruct (Z.eqb_spec a 0), (Z.eqb_spec b 0), (Z.eqb_spec (a + b) 0);
    simpl; try reflexivity; lia.
Qed.

Lemma integral_add_in_range (i : integral) (a b r : Z) :
  integral_add i a b = Some r -> in_range i r.
Proof.
  unfold integral_add.
  destruct (add_promoted (promote i) a b); [|discriminate].
  intros E; injection E as <-. apply convert_in_range.
Qed.

(** [Add<Point<T>>::add] as two coordinate sums in sequence. *)
Lemma Point_add_unfold (T : Type) `{AddTrait T T T} (p q : Point T) :
  operator_plus p q
  = and_then (operator_plus (x p) (x q)) (fun x_sum =>
      and_then (operator_plus (y p) (y q)) (fun y_sum =>
        Some {| x := x_sum; y := y_sum |})).
Proof. reflexivity. Qed.

(** X1.  Whatever the operands, a defined sum of two objects of the integral
    type [i] is a value of [i], and a defined sum of two points over [i] has
    both coordinates in [i]. *)
Theorem integral_sum_in_range :
  (forall (i : integral) (u v r : num (Integral i)),
      operator_plus u v = Some r -> in_range i (val r))
  /\ (forall (i : integral) (p q r : Point (num (Integral i))),
        operator_plus p q = Some r ->
        in_range i (val (x r)) /\ in_range i (val (y r))).
Proof.
  assert (Hnum : forall (i : integral) (u v r : num (Integral i)),
             operator_plus u v = Some r -> in_range i (val r)).
  { intros i [a] [b] [r]. unfold operator_plus; simpl.
    destruct (integral_add i a b) as [r'|] eqn:E; [|discriminate].
    intros E'; injection E' as <-. exact (integral_add_in_range i a b r' E). }
  split; [exact Hnum|].
  intros i p q r. rewrite Point_add_unfold.
  destruct (operator_plus (x p) (x q)) as [x_sum|] eqn:Ex; [|discriminate].
  destruct (operator_plus (y p) (y q)) as [y_sum|] eqn:Ey; [|discriminate].
  unfold and_then. intros E; injection E as <-. cbn [x y].
  split; [exact (Hnum i _ _ _ Ex) | exact (Hnum i _ _ _ Ey)].
Qed.

Lemma integral_sum_in_range_witness :
  operator_plus (integer unsigned_char 200) (integer unsigned_char 100)
  = Some (integer unsigned_char 44)
  /\ in_range unsigned_char (val (integer unsigned_char 44))
  /\ in_range short (val (x {| x := integer short (-32768);
                               y := integer short 3 |})).
Proof.
  split; [reflexivity|]. split.
  - apply (proj1 integral_sum_in_range unsigned_char
             (integer _ 200) (integer _ 100) (integer _ 44)).
    reflexivity.
  - apply (proj2 integral_sum_in_range short
             {| x := integer short 32767; y := integer short 1 |}
             {| x := integer short 1; y := integer short 2 |}
             {| x := integer short (-32768); y := integer short 3 |}).
    reflexivity.
Defined.

(** X2.  For operands that are values of the integral type [i], the sum is
    undefined in exactly one case: [i] is signed, at least as wide as [int],
    and the mathematical sum is not a value of [i]. *)
Theorem integral_sum_undefined_iff (i : integral) (u v : num (Integral i)) :
  in_range i (val u) -> in_range i (val v) ->
  (operator_plus u v = None
   <-> is_signed i = true /\ 32 <= width i
       /\ ~ in_range i (val u + val v)).
Proof.
  destruct u as [a], v as [b]. simpl val. intros Ha Hb.
  unfold operator_plus; simpl. unfold integral_add.
  rewrite (add_promoted_in_range i a b Ha Hb).
  destruct (is_signed i) eqn:Hs; simpl andb.
  - destruct (Z.leb_spec 32 (width i)) as [Hw|Hw]; simpl andb.
    + destruct (in_rangeb i (a + b)) eqn:Hr; simpl negb; cbv iota.
      * split; [discriminate|]. intros (_ & _ & Hn).
        apply in_rangeb_spec in Hr. contradiction.
      * split; [|reflexivity]. intros _. repeat split; [exact Hw|].
        intros Hin. apply in_rangeb_spec in Hin. congruence.
    + split; [discriminate|]. intros (_ & Hw' & _). lia.
  - split; [discriminate|]. intros (Hs' & _). discriminate Hs'.
Qed.

Lemma integral_sum_undefined_iff_witness :
  operator_plus (integer int 2147483647) (integer int 1) = None
  /\ operator_plus (integer short 32767) (integer short 1) <> None.
Proof.
  split.
  - apply (proj2 (integral_sum_undefined_iff int (integer _ 2147483647)
                    (integer _ 1)
                    ltac:(vm_compute; split; discriminate)
                    ltac:(vm_compute; split; discriminate))).
    split; [reflexivity|]. split; [vm_compute; discriminate|].
    vm_compute. intros [_ H]. apply H. reflexivity.
  - intros E.
    apply (proj1 (integral_sum_undefined_iff short (integer _ 32767)
                    (integer _ 1)
                    ltac:(vm_compute; split; discriminate)
                    ltac:(vm_compute; split; discriminate))) in E.
    destruct E as (_ & Hw & _). vm_compute in Hw. apply Hw. reflexivity.
Defined.

(** X3.  Over the unsigned integral types and [bool], addition through the
    trait is associative on values of the type: both groupings of three
    operands are defined and equal. *)
Theorem unsigned_add_assoc (i : integral) (u v w : num (Integral i)) :
  is_signed i = false ->
  in_range i (val u) -> in_range i (val v) -> in_range i (val w) ->
  and_then (operator_plus u v) (fun r => operator_plus r w)
  = and_then (operator_plus v w) (fun r => operator_plus u r)
  /\ and_then (operator_plus u v) (fun r => operator_plus r w) <> None.
Proof.
  destruct u as [a], v as [b], w as [c]. simpl val. intros Hs Ha Hb Hc.
  unfold operator_plus; simpl.
  destruct (integral_eq_bool i) as [->|Hn].
  - rewrite (integral_add_bool a b Ha Hb), (integral_add_bool b c Hb Hc).
    simpl and_then.
    rewrite integral_add_bool;
      [|unfold in_range, min_value, max_value; simpl;
        destruct ((a =? 0) && (b =? 0)); lia
       |exact Hc].
    rewrite (integral_add_bool a _ Ha);
      [|unfold in_range, min_value, max_value; simpl;
        destruct ((b =? 0) && (c =? 0)); lia].
    split; [|discriminate].
    destruct (a =? 0), (b =? 0), (c =? 0); reflexivity.
  - rewrite (integral_add_unsigned i a b Hs Hn Ha Hb),
            (integral_add_unsigned i b c Hs Hn Hb Hc).
    simpl and_then.
    assert (Hm : 0 < 2 ^ width i) by (destruct i; simpl; lia).
    assert (Hr : forall z, in_range i (z mod 2 ^ width i)).
    { intros z. pose proof (Z.mod_pos_bound z _ Hm).
      unfold in_range, min_value, max_value. rewrite Hs.
      destruct i; try congruence; lia. }
    rewrite (integral_add_unsigned i _ c Hs Hn (Hr _) Hc),
            (integral_add_unsigned i a _ Hs Hn Ha (Hr _)).
    split; [|discriminate].
    rewrite Z.add_mod_idemp_l, Z.add_mod_idemp_r by lia.
    now rewrite Z.add_assoc.
Qed.

Lemma unsigned_add_assoc_witness :
  and_then (operator_plus (integer unsigned_char 200)
              (integer unsigned_char 100))
    (fun r => operator_plus r (integer unsigned_char 250))
  = and_then (operator_plus (integer unsigned_char 100)
                (integer unsigned_char 250))
      (fun r => operator_plus (integer unsigned_char 200) r).
Proof.
  apply (unsigned_add_assoc unsigned_char (integer _ 200) (integer _ 100)
           (integer _ 250));
    [reflexivity | vm_compute; split; discriminate ..].
Defined.

(** X4.  Over a signed type at least as wide as [int], grouping matters:
    when [u + v] is not representable but [v + w] and [u + (v + w)] are,
    the left grouping is undefined and the right grouping is the exact
    sum. *)
Theorem signed_grouping (i : integral) (u v w : num (Integral i)) :
  is_signed i = true -> 32 <= width i ->
  in_range i (val u) -> in_range i (val v) -> in_range i (val w) ->
  ~ in_range i (val u + val v) ->
  in_range i (val v + val w) ->
  in_range i (val u + (val v + val w)) ->
  and_then (operator_plus u v) (fun r => operator_plus r w) = None
  /\ and_then (operator_plus v w) (fun r => operator_plus u r)
     = Some (integer i (val u + val v + val w)).
Proof.
  destruct u as [a], v as [b], w as [c]. simpl val.
  intros Hs Hw Ha Hb Hc Hab Hbc Habc.
  unfold operator_plus; simpl. unfold integral_add.
  rewrite (add_promoted_in_range i a b Ha Hb),
          (add_promoted_in_range i b c Hb Hc), Hs.
  rewrite (proj2 (Z.leb_le 32 (width i)) Hw).
  rewrite (in_rangeb_false i (a + b) Hab).
  rewrite (proj2 (in_rangeb_spec i (b + c)) Hbc). simpl.
  split; [reflexivity|].
  assert (Hp : is_signed (promote i) = true)
    by (destruct i; try discriminate Hs; reflexivity).
  rewrite Hp, (convert_id i (b + c) Hbc).
  rewrite (add_promoted_in_range i a (b + c) Ha Hbc), Hs.
  rewrite (proj2 (Z.leb_le 32 (width i)) Hw).
  rewrite (proj2 (in_rangeb_spec i _) Habc). simpl.
  rewrite Hp, (convert_id i _ Habc). unfold integer.
  now rewrite Z.add_assoc.
Qed.

Lemma signed_grouping_witness :
  and_then (operator_plus (integer int 2147483647) (integer int 1))
    (fun r => operator_plus r (integer int (-1)))
  = None
  /\ and_then (operator_plus (integer int 1) (integer int (-1)))
       (fun r => operator_plus (integer int 2147483647) r)
     = Some (integer int (2147483647 + 1 + -1)).
Proof.
  apply (signed_grouping int (integer _ 2147483647) (integer _ 1)
           (integer _ (-1)));
    [ reflexivity | vm_compute; discriminate
    | vm_compute; split; discriminate
    | vm_compute; split; discriminate
    | vm_compute; split; discriminate
    | vm_compute; intros [_ H]; apply H; reflexivity
    | vm_compute; split; discriminate
    | vm_compute; split; discriminate ].
Defined.

(** X5.  Zero is a two-sided identity over every integral type: added to a
    value of the type, on either side, it gives that value back, through the
    promotion and the conversion of the narrow types as well. *)
Theorem integral_zero_identity (i : integral) (a : Z) :
  in_range i a ->
  operator_plus (integer i a) (integer i 0) = Some (integer i a)
  /\ operator_plus (integer i 0) (integer i a) = Some (integer i a).
Proof.
  intros Ha.
  assert (H0 : in_range i 0)
    by (unfold in_range, min_value, max_value; destruct i; simpl; lia).
  assert (E : integral_add i a 0 = Some a).
  { unfold integral_add.
    rewrite (add_promoted_in_range i a 0 Ha H0), Z.add_0_r.
    rewrite (proj2 (in_rangeb_spec i a) Ha), andb_false_r.
    assert (Hm : (if is_signed (promote i) then a
                  else a mod 2 ^ width (promote i)) = a).
    { destruct (is_signed (promote i)) eqn:Hp; [reflexivity|].
      apply Z.mod_small.
      destruct i; try discriminate Hp;
        unfold in_range, min_value, max_value in Ha; simpl in Ha |- *; lia. }
    rewrite Hm, (convert_id i a Ha). reflexivity. }
  unfold operator_plus, integer; simpl.
  rewrite (integral_add_comm i 0 a), E. split; reflexivity.
Qed.

Lemma integral_zero_identity_witness :
  operator_plus (integer signed_char (-128)) (integer signed_char 0)
  = Some (integer signed_char (-128)).
Proof.
  apply (integral_zero_identity signed_char (-128)).
  vm_compute. split; discriminate.
Defined.

(** ** Floating-point [Self] and commutativity *)

Lemma SFadd_comm (p e : Z) (u v : spec_float) : SFadd p e u v = SFadd p e v u.
Proof.
  destruct u as [su|su| |su mu eu], v as [sv|sv| |sv mv ev];
    try reflexivity;
    try (destruct su, sv; reflexivity).
  simpl. rewrite (Z.min_comm ev eu). f_equal. apply Z.add_comm.
Qed.

Lemma builtin_add_comm (t : numeric) (a b : value t) :
  builtin_add t a b = builtin_add t b a.
Proof.
  destruct t as [i|f]; simpl.
  - apply integral_add_comm.
  - unfold floating_add. now rewrite SFadd_comm.
Qed.

Lemma num_add_comm (t : numeric) (u v : num t) :
  operator_plus u v = operator_plus v u.
Proof.
  unfold operator_plus; simpl. now rewrite builtin_add_comm.
Qed.

(** X6.  Addition through the trait is commutative over every built-in
    numeric type, undefined sums and NaN included, and so is the addition of
    points over such a type. *)
Theorem numeric_add_comm :
  (forall (t : numeric) (u v : num t),
      operator_plus u v = operator_plus v u)
  /\ (forall (t : numeric) (p q : Point (num t)),
        operator_plus p q = operator_plus q p).
Proof.
  split; [exact num_add_comm|].
  intros t p q. rewrite !Point_add_unfold.
  now rewrite (num_add_comm t (x p) (x q)), (num_add_comm t (y p) (y q)).
Qed.

(** X7.  Commutativity passes from the coordinates to the point: when the
    two [x] sums agree in both orders and the two [y] sums do, so do the two
    sums of the points, for any coordinate type. *)
Theorem Point_add_comm (T : Type) `{AddTrait T T T} (p q : Point T) :
  operator_plus (x p) (x q) = operator_plus (x q) (x p) ->
  operator_plus (y p) (y q) = operator_plus (y q) (y p) ->
  operator_plus p q = operator_plus q p.
Proof.
  intros Hx Hy. rewrite !Point_add_unfold. now rewrite Hx, Hy.
Qed.

Lemma Point_add_comm_witness :
  operator_plus {| x := a0; y := b0 |} {| x := b0; y := a0 |}
  = operator_plus {| x := b0; y := a0 |} {| x := a0; y := b0 |}.
Proof.
  apply (Point_add_comm (Point float)
           {| x := a0; y := b0 |} {| x := b0; y := a0 |});
    vm_compute; reflexivity.
Defined.

(** X8.  Negative zero is a two-sided identity of the floating-point
    implementation for every value, NaN and the infinities included, while
    positive zero is not: it turns negative zero into positive zero. *)
Theorem negative_zero_identity (f : Builtin.floating_point) :
  (forall u : num (Floating f),
      operator_plus u (zero_of f true) = Some u
      /\ operator_plus (zero_of f true) u = Some u)
  /\ operator_plus (zero_of f true) (zero_of f false)
     = Some (zero_of f false).
Proof.
  split; [|reflexivity].
  intros [[s|s| |s m e]]; split; try reflexivity; destruct s; reflexivity.
Qed.

(** X9.  No special handling of the exceptional values: a NaN operand on
    either side gives NaN, two infinities of opposite sign give NaN, and in a
    point sum a NaN [x] coordinate makes the [x] of the sum NaN and leaves the
    [y] of the sum as the sum of the [y]s; the point-plus-scalar sum of a
    point with a NaN [x] is NaN. *)
Theorem nan_propagates :
  (forall (f : Builtin.floating_point) (v : num (Floating f)),
      operator_plus (nan_of f) v = Some (nan_of f)
      /\ operator_plus v (nan_of f) = Some (nan_of f))
  /\ (forall (f : Builtin.floating_point) (s : bool),
        operator_plus (infinity_of f s) (infinity_of f (negb s))
        = Some (nan_of f))
  /\ (forall (q : Point float) (y0 : float),
        operator_plus {| x := nan_of float_t; y := y0 |} q
        = Some {| x := nan_of float_t; y := float_add y0 (y q) |})
  /\ (forall (rhs y0 : float),
        operator_plus_dyn (DynAdd_of {| x := nan_of float_t; y := y0 |}) rhs
        = Some (nan_of float_t)).
Proof.
  split.
  { intros f [[s|s| |s m e]]; split; reflexivity. }
  split.
  { intros f [|]; reflexivity. }
  split.
  { intros [[[s|s| |s m e]] qy] y0; reflexivity. }
  intros [[s|s| |s m e]] y0; reflexivity.
Qed.

(** ** The loop of the driver over any vector *)

Lemma loop_body_undefined (lhs : DynAdd float float) (st : state) :
  operator_plus_dyn lhs (float_lit 12 1) = None -> loop_body lhs st = None.
Proof.
  intros E. unfold loop_body, bind, eval. now rewrite E.
Qed.

Lemma for_each_cons (lhs : DynAdd float float)
    (range : list (DynAdd float float)) (st : state) :
  for_each (lhs :: range) loop_body st
  = match loop_body lhs st with
    | Some (_, st') => for_each range loop_body st'
    | None => None
    end.
Proof. reflexivity. Qed.




(** X10.  The loop fails exactly when the sum of some element of the vector
    with [1.2f] is undefined; on the empty vector it succeeds. *)
Theorem loop_fails_iff (range : list (DynAdd float float)) (st : state) :
  for_each range loop_body st = None
  <-> exists lhs : DynAdd float float,
        In lhs range /\ operator_plus_dyn lhs (float_lit 12 1) = None.
Proof.
  revert st. induction range as [|lhs range IH]; intros st.
  - split; [discriminate|]. intros (lhs & [] & _).
  - rewrite for_each_cons.
    destruct (operator_plus_dyn lhs (float_lit 12 1)) as [r|] eqn:E.
    + rewrite (run_loop_body lhs r st E), IH. split.
      * intros (l & Hin & Hl). exists l. split; [right; exact Hin|exact Hl].
      * intros (l & [<-|Hin] & Hl); [congruence|].
        exists l. split; assumption.
    + rewrite (loop_body_undefined lhs st E). split; [|reflexivity].
      intros _. exists lhs. split; [left; reflexivity|exact E].
Qed.


